(** * bumpr: the helpers of the release tool, and the configuration and
    version rules built on them

    The development follows [bumpr/helpers.py]:
    - [ObjectDict], the dictionary with attribute access and deep merge that
      carries the configuration tree;
    - [execute], the helper that runs the commands of a hook or of the test
      suite, as Python 2 and as Python 3 run it.
    The resolution of the configuration layers ([bumpr/config.py]) and the
    versions ([bumpr/version.py]) are not among the sources; [Config] and
    [Version] model them from the design, on top of [ObjectDict.merge].

    Python values are embedded shallowly.  A dictionary is a finite map from
    string keys ([gmap string value]): Python compares dictionaries by
    content, whatever the insertion order, which is the extensional equality
    of [gmap].  A method that mutates [self] in place is a function from the
    items of [self] before the call to its items after the call.  The values
    of a configuration form a tree: no dictionary object is stored at two
    places of it, so a value stands for the object. *)

From stdpp Require Import gmap strings list fin_maps.
From Stdlib Require Import Ascii DecimalString DecimalN.

#[local] Set Warnings "-register-all".
#[local] Open Scope string_scope.
#[local] Open Scope list_scope.

(** ** Python values held by a configuration *)

(** The scalars of the configuration: [None], strings, booleans, integers
    and lists of strings. *)
Inductive atom : Type :=
| ANone
| AStr (s : string)
| ABool (b : bool)
| AInt (z : Z)
| AList (l : list string).

(** [VDict] is an instance of [dict] that is not an [ObjectDict]; [VObj] is
    an instance of [ObjectDict]. *)
Inductive value : Type :=
| VAtom (a : atom)
| VDict (items : gmap string value)
| VObj (items : gmap string value).

(** [isinstance(value, dict)] *)
Definition is_dict (v : value) : bool :=
  match v with
  | VAtom _ => false
  | VDict _ | VObj _ => true
  end.


(** The items of a mapping ([dict(value).items()]). *)
Definition items_of (v : value) : gmap string value :=
  match v with
  | VAtom _ => ∅
  | VDict m | VObj m => m
  end.

(** Size of a value, the measure of the inductions below. *)
Fixpoint vsize (v : value) : nat :=
  match v with
  | VAtom _ => 1
  | VDict m | VObj m => S (map_fold (λ _ x n, vsize x + n) 0 m)
  end.

(** [all_values f m]: [f] holds of every value of [m]. *)
Definition all_values (f : value → bool) (m : gmap string value) : bool :=
  map_fold (λ _ x b, f x && b) true m.

Module ObjectDict.

(** The guard shared by [__setattr__], [__setitem__], [update] and [merge]:
<<
  if isinstance(value, dict) and not isinstance(value, ObjectDict):
      value = ObjectDict(value)
>>
    [ObjectDict(value)] runs [update] on a new object, which stores each
    item after the same guard: the recursion is on the nesting of plain
    dictionaries.  [as_objectdict_VDict] below gives the equation in terms
    of [__init__]. *)
Fixpoint as_objectdict (v : value) : value :=
  match v with
  | VDict m =>
      VObj (map_fold (λ key x self, <[key := as_objectdict x]> self) ∅ m)
  | _ => v
  end.

(** [__setitem__(self, key, value)] *)
Definition __setitem__ (self : gmap string value) (key : string) (v : value)
  : gmap string value :=
  let v := as_objectdict v in
  <[key := v]> self.

(** [__setattr__(self, key, value)]: the guard, then [self[key] = value]. *)
Definition __setattr__ (self : gmap string value) (key : string) (v : value)
  : gmap string value :=
  let v := as_objectdict v in
  __setitem__ self key v.

(** [update(self, m)]: the guard, then [self[key] = value], for each item
    of [m]. *)
Definition update (self m : gmap string value) : gmap string value :=
  map_fold (λ key x self,
              let v := as_objectdict x in
              __setitem__ self key v) self m.

(** [__init__(self, m)], on the new and empty [self]. *)
Definition __init__ (m : gmap string value) : gmap string value :=
  update ∅ m.

(** One turn of the loop of [merge], given the function [rec] for the call
    [self[key].merge(value)].  [arg] is the item of the argument before the
    guard, [v] after it. *)
Definition merge_step (rec : gmap string value → value → gmap string value)
    (key : string) (arg : value) (self : gmap string value)
  : gmap string value :=
  if is_dict arg then
    let v := as_objectdict arg in
    match self !! key with
    | Some (VObj sub) => <[key := VObj (rec sub arg)]> self
    | _ => __setitem__ self key v
    end
  else __setitem__ self key arg.

(** [merge_value self arg] is [self.merge(arg)] for a mapping [arg].  The
    recursive call is written on the item as it is in [arg]; the source
    passes it after the guard, which [merge_unfold] shows to be the same. *)
Fixpoint merge_value (self : gmap string value) (arg : value) {struct arg}
  : gmap string value :=
  match arg with
  | VAtom _ => self
  | VDict m | VObj m => map_fold (merge_step merge_value) self m
  end.

(** [merge(self, m)] *)
Definition merge (self m : gmap string value) : gmap string value :=
  merge_value self (VDict m).

(** The value [merge] leaves under a key whose item in the argument is
    [arg], when [old] was there before. *)
Definition merged_item (old : option value) (arg : value) : value :=
  match old with
  | Some (VObj sub) =>
      if is_dict arg then VObj (merge_value sub arg) else as_objectdict arg
  | _ => as_objectdict arg
  end.

(** The content of a value, which [==] compares: the items, whatever the
    class of the dictionaries that hold them. *)
Fixpoint content (v : value) : value :=
  match v with
  | VAtom a => VAtom a
  | VDict m | VObj m => VDict (content <$> m)
  end.

(** *** Reading *)

Inductive exn : Type :=
| KeyError (key : string).

(** What reading an item or an attribute gives: a stored value, a bound
    method of the class, or an exception. *)
Inductive read : Type :=
| Value (v : value)
| BoundMethod (name : string)
| Raise (e : exn).

(** [self[key]], the [__getitem__] of [dict]. *)
Definition __getitem__ (self : gmap string value) (key : string) : read :=
  match self !! key with
  | Some v => Value v
  | None => Raise (KeyError key)
  end.

(** [__getattr__(self, key)] *)
Definition __getattr__ (self : gmap string value) (key : string) : read :=
  __getitem__ self key.

(** The names the class body of [ObjectDict] defines. *)
Definition class_body : list string :=
  ["__init__"; "__getattr__"; "__setattr__"; "__setitem__"; "update";
   "merge"].

Section Attribute.

(** The other names the normal lookup finds on an instance: those that
    [dict] and [object] give ([keys], [items], [get], [__class__], ...) and
    those every class has ([__doc__], [__module__], ...). *)
Variable inherited : string → bool.

(** Whether the normal attribute lookup finds [name] on the class. *)
Definition class_attribute (name : string) : bool :=
  bool_decide (name ∈ class_body) || inherited name.

(** [self.name]: Python calls [__getattr__] only when the normal lookup
    finds nothing; [__setattr__] keeps the instance dictionary empty, so
    the normal lookup finds the attributes of the class only. *)
Definition getattr (self : gmap string value) (name : string) : read :=
  if class_attribute name then BoundMethod name
  else __getattr__ self name.

End Attribute.

(** *** The invariant of a configuration tree *)

(** [deep_obj v]: [v] is no plain dictionary and holds none, at any depth. *)
Fixpoint deep_obj (v : value) : bool :=
  match v with
  | VAtom _ => true
  | VDict _ => false
  | VObj m => all_values deep_obj m
  end.

(** Every mapping reachable in the [ObjectDict] of items [self] is an
    [ObjectDict]. *)
Definition invariant (self : gmap string value) : bool :=
  all_values deep_obj self.

(** [sound v]: every [ObjectDict] in [v] satisfies the invariant.  It holds
    of any value made of plain dictionaries and scalars only. *)
Fixpoint sound (v : value) : bool :=
  match v with
  | VAtom _ => true
  | VDict m => all_values sound m
  | VObj m => all_values deep_obj m
  end.

(** *** Keys along a path *)

(** [has_path v p]: the keys of [p] can be read one after the other, from
    [v] inwards. *)
Fixpoint has_path (v : value) (p : list string) : bool :=
  match p with
  | [] => true
  | key :: p' =>
      match items_of v !! key with
      | Some x => has_path x p'
      | None => false
      end
  end.

(** [merged_at self m p]: [self.merge(m)] reaches the mapping at path [p]
    of [self] through recursive calls only. *)
Fixpoint merged_at (self m : gmap string value) (p : list string) : bool :=
  match p with
  | [] => true
  | key :: p' =>
      match self !! key, m !! key with
      | Some (VObj sub), Some arg =>
          is_dict arg && merged_at sub (items_of arg) p'
      | _, _ => false
      end
  end.

(** [value_at v p]: the chained item reads [v[k1][k2]...] along the keys of
    [p]; [None] when a key is missing. *)
Fixpoint value_at (v : value) (p : list string) : option value :=
  match p with
  | [] => Some v
  | key :: p' =>
      match items_of v !! key with
      | Some x => value_at x p'
      | None => None
      end
  end.

End ObjectDict.

(** ** [execute] *)

Module Execute.

(** *** The strings of a command template *)

Section Strip.

(** The characters [str.strip()] removes.  They depend on the string the
    interpreter holds: [ascii_whitespace] for a byte string of Python 2,
    [unicode_whitespace] for a text string. *)
Variable is_space : ascii → bool.

(** [s.lstrip()] *)
Fixpoint lstrip (s : string) : string :=
  match s with
  | EmptyString => EmptyString
  | String c s' => if is_space c then lstrip s' else s
  end.

(** [s.rstrip()] *)
Fixpoint rstrip (s : string) : string :=
  match s with
  | EmptyString => EmptyString
  | String c s' =>
      match rstrip s' with
      | EmptyString => if is_space c then EmptyString else String c EmptyString
      | r => String c r
      end
  end.

(** [s.strip()] *)
Definition strip (s : string) : string := rstrip (lstrip s).

End Strip.

(** [string.whitespace]: what [strip] removes from a byte string. *)
Definition ascii_whitespace (c : ascii) : bool :=
  bool_decide (c ∈ [" "; "009"; "010"; "011"; "012"; "013"]%char).

(** What [strip] removes from a text string, among the code points below
    256: the characters of [string.whitespace], the separators 0x1c to 0x1f,
    the next line 0x85 and the no-break space 0xa0. *)
Definition unicode_whitespace (c : ascii) : bool :=
  ascii_whitespace c
  || bool_decide (c ∈ ["028"; "029"; "030"; "031"; "133"; "160"]%char).

(** The truth value of a string: [bool(s)]. *)
Definition nonempty (s : string) : bool :=
  match s with
  | EmptyString => false
  | String _ _ => true
  end.

(** [s.split('\n')] *)
Fixpoint split_lines (s : string) : list string :=
  match s with
  | EmptyString => [EmptyString]
  | String c s' =>
      if Ascii.eqb c "010" then EmptyString :: split_lines s'
      else match split_lines s' with
           | line :: lines => String c line :: lines
           | [] => [String c EmptyString]
           end
  end.

(** [' '.join(cmd)] *)
Definition join_spaces (cmd : list string) : string := String.concat " " cmd.

(** *** Commands, exceptions and results *)

(** The argument [command]: [None], a template of one command per line, one
    argument vector, or a list of argument vectors.  (A list is taken for a
    list of vectors when its first element is a list or a tuple.) *)
Inductive command : Type :=
| CNone
| CStr (template : string)
| CVector (parts : list string)
| CVectors (vectors : list (list string)).

(** [bool(command)] *)
Definition truthy (c : command) : bool :=
  match c with
  | CNone => false
  | CStr s => nonempty s
  | CVector parts => negb (bool_decide (parts = []))
  | CVectors vectors => negb (bool_decide (vectors = []))
  end.

(** The exceptions that leave [execute]: those of [str.format] and of
    [shlex.split]; [subprocess.CalledProcessError]; the exception of a child
    that could not be started ([OSError] for a program that is missing or
    may not be run, [IndexError] for an empty vector); and the [TypeError]
    of [output += ...] when the right-hand side is no [str]. *)
Inductive exn : Type :=
| FormatError (template : string)
| SplitError (text : string)
| CalledProcessError (returncode : Z) (cmd : list string) (output : string)
| SpawnError (cmd : list string)
| TypeError.

(** What the logger and [print] receive. *)
Inductive event : Type :=
| LogDryrun (message : string)
| LogError (cmd : list string) (returncode : Z)
| Print (text : string).

Section Run.

(** The state of the machine the commands run on. *)
Context {W : Type}.

(** The characters [str.strip()] removes (see [strip]). *)
Variable is_space : ascii → bool.

(** Whether the interpreter is Python 3, where [check_output] returns
    [bytes]: [output += check_output(cmd)] then raises [TypeError], as
    [output] is a [str].  On Python 2 both are [str]. *)
Variable py3 : bool.

(** [str.format], called on a template with the replacements as keyword
    arguments; [None] when it raises. *)
Variable format : string → gmap string string → option string.

(** [shlex.split(text)]; [None] when it raises. *)
Variable shlex_split : string → option (list string).

(** A child process run to its end: its exit status and standard output,
    or [None] when it could not be started. *)
Variable spawn : list string → W → option (Z * string) * W.

(** The machine, the commands spawned so far and the messages emitted so
    far, oldest first. *)
Record state : Type := State {
  world : W;
  spawned : list (list string);
  emitted : list event
}.

(** Computations that change the state and may raise. *)
Definition M (A : Type) : Type := state → (exn + A) * state.

Definition ret {A} (a : A) : M A := λ st, (inr a, st).

Definition raise {A} (e : exn) : M A := λ st, (inl e, st).

Definition bind {A B} (m : M A) (k : A → M B) : M B :=
  λ st, match m st with
        | (inr a, st') => k a st'
        | (inl e, st') => (inl e, st')
        end.

(** [try: m except subprocess.CalledProcessError as exception: handler] *)
Definition try_except {A} (m : M A) (handler : Z → list string → string → M A)
  : M A :=
  λ st, match m st with
        | (inl (CalledProcessError code cmd out), st') =>
            handler code cmd out st'
        | r => r
        end.

Definition emit (e : event) : M () :=
  λ st, (inr (), State (world st) (spawned st) (emitted st ++ [e])).

Local Notation "'let*' x ':=' m 'in' k" := (bind m (λ x, k))
  (at level 10, x name, m at level 100, k at level 200).

(** The child process of [subprocess.check_call] and
    [subprocess.check_output]. *)
Definition call (cmd : list string) : M (Z * string) :=
  λ st, match spawn cmd (world st) with
        | (Some r, w) =>
            (inr r, State w (spawned st ++ [cmd]) (emitted st))
        | (None, w) =>
            (inl (SpawnError cmd), State w (spawned st) (emitted st))
        end.

(** [subprocess.check_call(cmd)] *)
Definition check_call (cmd : list string) : M () :=
  let* r := call cmd in
  let '(code, out) := r in
  if bool_decide (code = 0%Z) then ret ()
  else raise (CalledProcessError code cmd "").

(** [check_output(cmd)] *)
Definition check_output (cmd : list string) : M string :=
  let* r := call cmd in
  let '(code, out) := r in
  if bool_decide (code = 0%Z) then ret out
  else raise (CalledProcessError code cmd out).

(** [output + out], for the [str] [output] and the result [out] of
    [check_output]. *)
Definition add_output (output out : string) : M string :=
  if py3 then raise TypeError else ret (output +:+ out).

(** [[f(x) for x in l]], where [f] may raise. *)
Fixpoint comprehension {A B} (f : A → exn + B) (l : list A) : exn + list B :=
  match l with
  | [] => inr []
  | x :: l' =>
      match f x with
      | inl e => inl e
      | inr y =>
          match comprehension f l' with
          | inl e => inl e
          | inr ys => inr (y :: ys)
          end
      end
  end.

(** The format of one part, as the source calls it. *)
Definition format_part (replacements : gmap string string) (part : string)
  : exn + string :=
  match format part replacements with
  | Some text => inr text
  | None => inl (FormatError part)
  end.

(** One line of a template: the format, then [shlex.split]. *)
Definition split_line (replacements : gmap string string) (cmd : string)
  : exn + list string :=
  match format_part replacements cmd with
  | inl e => inl e
  | inr text =>
      match shlex_split text with
      | Some argv => inr argv
      | None => inl (SplitError text)
      end
  end.

(** The list [commands] that [execute] builds from a non-empty [command]. *)
Definition commands_of (c : command) (replacements : gmap string string)
  : exn + list (list string) :=
  match c with
  | CNone => inr []
  | CVector parts =>
      comprehension (comprehension (format_part replacements)) [parts]
  | CVectors vectors =>
      comprehension (comprehension (format_part replacements)) vectors
  | CStr template =>
      comprehension (split_line replacements)
        (filter (λ cmd, nonempty (strip is_space cmd) = true)
           (split_lines template))
  end.

(** The loop over [commands]; [output] is the text gathered so far. *)
Fixpoint run_commands (verbose dryrun : bool) (commands : list (list string))
    (output : string) : M string :=
  match commands with
  | [] => ret output
  | cmd :: rest =>
      if dryrun then
        let* _ := emit (LogDryrun ("execute: " +:+ join_spaces cmd)) in
        run_commands verbose dryrun rest output
      else if verbose then
        let* _ := check_call cmd in
        run_commands verbose dryrun rest output
      else
        let* output :=
          try_except
            (let* out := check_output cmd in add_output output out)
            (λ returncode cmd' out,
               let* _ := emit (LogError cmd returncode) in
               let* _ := emit (Print out) in
               ret output) in
        run_commands verbose dryrun rest output
  end.

(** [execute(command, verbose, replacements, dryrun)]; the result [None] is
    Python's [None]. *)
Definition execute (c : command) (verbose : bool)
    (replacements : option (gmap string string)) (dryrun : bool)
  : M (option string) :=
  let replacements := default ∅ replacements in
  if negb (truthy c) then ret None
  else
    match commands_of c replacements with
    | inl e => raise e
    | inr commands =>
        let* output := run_commands verbose dryrun commands "" in
        ret (Some output)
    end.

(** *** What the children do *)

(** What each command does when the commands are run in turn, each on the
    machine the one before leaves. *)
Fixpoint outcomes (commands : list (list string)) (w : W)
  : list (option (Z * string)) :=
  match commands with
  | [] => []
  | cmd :: rest => let '(r, w') := spawn cmd w in r :: outcomes rest w'
  end.

End Run.

(** A child that was started and exited with the status zero. *)
Definition exited_zero (r : option (Z * string)) : bool :=
  match r with
  | Some (code, _) => bool_decide (code = 0%Z)
  | None => false
  end.

(** The number of outcomes before the first that is no exit with the status
    zero. *)
Fixpoint leading_successes (rs : list (option (Z * string))) : nat :=
  match rs with
  | r :: rs' => if exited_zero r then S (leading_successes rs') else 0
  | [] => 0
  end.

End Execute.

(** ** The configuration layers *)

Module Config.

(** Modelled from the spec: [bumpr/config.py] is not among the sources.  The
    boolean keys a command-line flag, or a pair of flags, sets (sections 3
    and 6 of the design). *)
Definition boolean_flags : list string :=
  ["verbose"; "dryrun"; "commit"; "push"; "skip_tests"; "bump_only";
   "prepare_only"].

(** Modelled from the spec: the parsed arguments of [bumpr/config.py], which
    is not among the sources.  A flag that was not given is absent from
    [flags]; a flag given in one of its forms is bound to the boolean that
    form sets.  [file] is the positional path; [bump] holds the options of
    the bump sub-tree that were given (part, suffix, message). *)
Record parsed_args : Type := ParsedArgs {
  flags : gmap string bool;
  file : option string;
  bump : gmap string string
}.

(** Modelled from the spec: the command-line layer of [bumpr/config.py],
    which is not among the sources.  It holds the supplied values only. *)
Definition cli_layer (args : parsed_args) : gmap string value :=
  let booleans :=
    (λ b, VAtom (ABool b)) <$>
      filter (λ kv, kv.1 ∈ boolean_flags) (flags args) in
  let path :=
    match file args with
    | Some f => {[ "file" := VAtom (AStr f) ]}
    | None => ∅
    end in
  let nested : gmap string value :=
    if decide (bump args = ∅) then ∅
    else {[ "bump" := VDict ((λ s, VAtom (AStr s)) <$> bump args) ]} in
  booleans ∪ path ∪ nested.

(** Modelled from the spec: [OverrideFromFileConfig] of [bumpr/config.py],
    which is not among the sources, on the mapping read from the file: the
    layer is deep-merged into the tree. *)
Definition OverrideFromFileConfig (tree layer : gmap string value)
  : gmap string value :=
  ObjectDict.merge tree layer.

(** Modelled from the spec: [OverrideFromArgs] of [bumpr/config.py], which is
    not among the sources: the command-line layer is deep-merged into the
    tree. *)
Definition OverrideFromArgs (tree : gmap string value) (args : parsed_args)
  : gmap string value :=
  ObjectDict.merge tree (cli_layer args).

(** Modelled from the spec: the resolution order of [bumpr/config.py], which
    is not among the sources: defaults, then the file, then the command
    line. *)
Definition Resolve (defaults layer : gmap string value) (args : parsed_args)
  : gmap string value :=
  OverrideFromArgs (OverrideFromFileConfig defaults layer) args.

End Config.

(** ** Versions *)

Module Version.

(** Modelled from the spec: the version of [bumpr/version.py], which is not
    among the sources (section 3 of the design). *)
Record Version : Type := MkVersion {
  major : N;
  minor : N;
  patch : N;
  suffix : option string;
  suffix_number : option N
}.

(** Modelled from the spec: a character of a numeric segment. *)
Definition is_digit (c : ascii) : bool :=
  bool_decide (c ∈ ["0"; "1"; "2"; "3"; "4"; "5"; "6"; "7"; "8"; "9"]%char).

(** Modelled from the spec: the longest prefix of [s] whose characters
    satisfy [p], and what follows it. *)
Fixpoint span (p : ascii → bool) (s : string) : string * string :=
  match s with
  | EmptyString => (EmptyString, EmptyString)
  | String c s' =>
      if p c then let '(a, b) := span p s' in (String c a, b)
      else (EmptyString, s)
  end.

(** Modelled from the spec: the text of the segments of a version string
    [MAJOR.MINOR.PATCH[-SUFFIXNUMBER]]: the three numeric segments and, if
    there is a suffix segment, its label and the digits that follow it. *)
Record segments : Type := Segments {
  seg_major : string;
  seg_minor : string;
  seg_patch : string;
  seg_suffix : option (string * string)
}.

(** Modelled from the spec: a separator of the form: [expect c s] is what
    follows [c] at the head of [s]. *)
Definition expect (c : ascii) (s : string) : option string :=
  match s with
  | String c' s' => if Ascii.eqb c c' then Some s' else None
  | EmptyString => None
  end.

(** Modelled from the spec: the segments of [text], when it has the form
    [MAJOR.MINOR.PATCH[-SUFFIXNUMBER]]: three non-empty runs of digits
    separated by dots, then nothing or a dash, a non-empty label without
    digits and a possibly empty run of digits. *)
Definition split_segments (text : string) : option segments :=
  let '(ma, r) := span is_digit text in
  r ← expect "." r;
  let '(mi, r) := span is_digit r in
  r ← expect "." r;
  let '(pa, r) := span is_digit r in
  if negb (Execute.nonempty ma && Execute.nonempty mi && Execute.nonempty pa)
  then None
  else
    match r with
    | EmptyString => Some (Segments ma mi pa None)
    | _ =>
        r ← expect "-" r;
        let '(label, r) := span (λ c, negb (is_digit c)) r in
        let '(number, r) := span is_digit r in
        if Execute.nonempty label && negb (Execute.nonempty r)
        then Some (Segments ma mi pa (Some (label, number)))
        else None
    end.

(** Modelled from the spec: the integer a run of digits denotes. *)
Definition int_of_digits (digits : string) : option N :=
  N.of_uint <$> NilZero.uint_of_string digits.


(** Modelled from the spec: the version the segments denote. *)
Definition version_of_segments (sg : segments) : option Version :=
  ma ← int_of_digits (seg_major sg);
  mi ← int_of_digits (seg_minor sg);
  pa ← int_of_digits (seg_patch sg);
  match seg_suffix sg with
  | None => Some (MkVersion ma mi pa None None)
  | Some (label, EmptyString) => Some (MkVersion ma mi pa (Some label) None)
  | Some (label, number) =>
      n ← int_of_digits number;
      Some (MkVersion ma mi pa (Some label) (Some n))
  end.

(** Modelled from the spec: [Parse] of [bumpr/version.py], which is not among
    the sources; [None] is the [ParseError]. *)
Definition Parse (text : string) : option Version :=
  split_segments text ≫= version_of_segments.




End Version.

(** ** Concrete configurations, commands and machines *)

Module Examples.
Import ObjectDict.

Definition defaults : gmap string value :=
  {[ "file" := VAtom ANone;
     "push" := VAtom (ABool false);
     "commit" := VAtom (ABool true);
     "bump" := VObj {[ "part" := VAtom (AStr "patch");
                       "suffix" := VAtom ANone ]} ]}.

Definition layer : gmap string value :=
  {[ "push" := VAtom (ABool true);
     "bump" := VDict {[ "suffix" := VAtom (AStr "dev") ]};
     "hook" := VDict {[ "url" := VAtom (AStr "u") ]} ]}.

(** Some of the names every [dict] has. *)
Definition dict_names (name : string) : bool :=
  bool_decide (name ∈ ["clear"; "copy"; "get"; "items"; "keys"; "pop";
                        "popitem"; "setdefault"; "values"]).

(** A format that fills [{key}] from the replacements and fails on a missing
    key or an open brace. *)
Fixpoint fill (s : string) (key : option string)
    (replacements : gmap string string) : option string :=
  match s, key with
  | EmptyString, None => Some EmptyString
  | EmptyString, Some _ => None
  | String c s', None =>
      if Ascii.eqb c "{" then fill s' (Some EmptyString) replacements
      else String c <$> fill s' None replacements
  | String c s', Some k =>
      if Ascii.eqb c "}" then
        v ← replacements !! k;
        rest ← fill s' None replacements;
        Some (v +:+ rest)
      else fill s' (Some (k +:+ String c EmptyString)) replacements
  end.

Definition simple_format (s : string) (replacements : gmap string string)
  : option string :=
  fill s None replacements.

(** A tokenizer that cuts at spaces. *)
Fixpoint words (s : string) (current : string) : list string :=
  match s with
  | EmptyString => if Execute.nonempty current then [current] else []
  | String c s' =>
      if Ascii.eqb c " " then
        if Execute.nonempty current then current :: words s' EmptyString
        else words s' EmptyString
      else words s' (current +:+ String c EmptyString)
  end.

Definition simple_split (s : string) : option (list string) :=
  Some (words s EmptyString).

(** A machine without state, on which [false] fails, [echo] writes its
    arguments, [missing] and the empty vector cannot be started, and any
    other command succeeds silently. *)
Definition simple_spawn (cmd : list string) (w : ())
  : option (Z * string) * () :=
  match cmd with
  | [] => (None, w)
  | "missing" :: _ => (None, w)
  | "false" :: _ => (Some (1%Z, "failed"), w)
  | "echo" :: args => (Some (0%Z, Execute.join_spaces args +:+ "/"), w)
  | _ => (Some (0%Z, ""), w)
  end.

Definition start : Execute.state := Execute.State () [] [].

(** A call on Python 2, with a template of bytes. *)
Definition run (c : Execute.command) (verbose dryrun : bool)
    (replacements : gmap string string)
  : (Execute.exn + option string) * Execute.state :=
  Execute.execute Execute.ascii_whitespace false simple_format simple_split
    simple_spawn c verbose (Some replacements) dryrun start.

(** The same call on Python 3. *)
Definition run3 (c : Execute.command) (verbose dryrun : bool)
    (replacements : gmap string string)
  : (Execute.exn + option string) * Execute.state :=
  Execute.execute Execute.unicode_whitespace true simple_format simple_split
    simple_spawn c verbose (Some replacements) dryrun start.

End Examples.

(** * Properties *)

Import ObjectDict.

(** ** Folds over the items of a dictionary *)

Lemma map_fold_ext_in {A B} (f g : string → A → B → B) (b : B)
    (m : gmap string A) :
  (∀ k x c, m !! k = Some x → f k x c = g k x c) →
  map_fold f b m = map_fold g b m.
Proof.
  induction m as [|i x m Hi Hfirst IH] using map_first_key_ind; intros Hfg.
  - by rewrite !map_fold_empty.
  - rewrite !map_fold_insert_first_key by done.
    rewrite IH.
    + apply Hfg. by rewrite lookup_insert_eq.
    + intros k y c Hk. apply Hfg.
      rewrite lookup_insert_ne; [done|]. intros ->. congruence.
Qed.

(** A loop that writes one key per item reads back as follows. *)
Lemma map_fold_insert_lookup {A} (f : string → A → gmap string value → value)
    (self : gmap string value) (m : gmap string A) (k : string) :
  (∀ key x acc, m !! key = Some x → acc !! key = self !! key →
                f key x acc = f key x self) →
  map_fold (λ key x acc, <[key := f key x acc]> acc) self m !! k =
  match m !! k with
  | Some x => Some (f k x self)
  | None => self !! k
  end.
Proof.
  induction m as [|i x m Hi Hfirst IH] using map_first_key_ind; intros Hf.
  - by rewrite map_fold_empty, lookup_empty.
  - rewrite map_fold_insert_first_key by done.
    assert (Hm : ∀ key y acc, m !! key = Some y → acc !! key = self !! key →
                              f key y acc = f key y self).
    { intros key y acc Hk. apply Hf. rewrite lookup_insert_ne; [done|].
      intros ->. congruence. }
    destruct (decide (i = k)) as [->|Hne].
    + rewrite !lookup_insert_eq. f_equal. apply Hf.
      * by rewrite lookup_insert_eq.
      * rewrite (IH Hm), Hi. done.
    + rewrite !lookup_insert_ne by done. by apply IH.
Qed.

Lemma all_values_spec (f : value → bool) (m : gmap string value) :
  all_values f m = true ↔ ∀ k x, m !! k = Some x → f x = true.
Proof.
  unfold all_values.
  induction m as [|i x m Hi Hfirst IH] using map_first_key_ind.
  - rewrite map_fold_empty. split; [|done]. intros _ k x.
    by rewrite lookup_empty.
  - rewrite map_fold_insert_first_key by done.
    rewrite andb_true_iff, IH. split.
    + intros [Hx Hm] k y. destruct (decide (i = k)) as [->|Hne].
      * rewrite lookup_insert_eq. congruence.
      * rewrite lookup_insert_ne by done. apply Hm.
    + intros H. split.
      * apply (H i). by rewrite lookup_insert_eq.
      * intros k y Hk. apply (H k). rewrite lookup_insert_ne; [done|].
        intros ->. congruence.
Qed.

Lemma vsize_lookup (m : gmap string value) (k : string) (x : value) :
  m !! k = Some x → (vsize x ≤ map_fold (λ _ y n, vsize y + n) 0 m)%nat.
Proof.
  induction m as [|i y m Hi Hfirst IH] using map_first_key_ind.
  - by rewrite lookup_empty.
  - rewrite map_fold_insert_first_key by done.
    destruct (decide (i = k)) as [->|Hne].
    + rewrite lookup_insert_eq. intros [= ->]. lia.
    + rewrite lookup_insert_ne by done. intros Hk. specialize (IH Hk). lia.
Qed.

(** Induction on a value, with the hypothesis for every stored item. *)
Lemma value_items_ind (P : value → Prop) :
  (∀ a, P (VAtom a)) →
  (∀ m, (∀ k x, m !! k = Some x → P x) → P (VDict m)) →
  (∀ m, (∀ k x, m !! k = Some x → P x) → P (VObj m)) →
  ∀ v, P v.
Proof.
  intros Hatom Hdict Hobj v.
  remember (vsize v) as n eqn:Hn.
  revert v Hn. induction n as [n IH] using lt_wf_ind. intros v ->.
  destruct v as [a|m|m]; [apply Hatom|apply Hdict|apply Hobj];
    intros k x Hk; apply (IH (vsize x)); try done;
    apply vsize_lookup in Hk; simpl; lia.
Qed.

(** ** The guard [as_objectdict] *)

Lemma as_objectdict_fmap (m : gmap string value) :
  as_objectdict (VDict m) = VObj (as_objectdict <$> m).
Proof.
  cbn [as_objectdict]. f_equal. apply map_eq. intros k.
  rewrite (map_fold_insert_lookup (λ _ x _, as_objectdict x)) by done.
  rewrite lookup_fmap, lookup_empty. by destruct (m !! k).
Qed.

Lemma as_objectdict_not_dict (v : value) :
  is_dict v = false → as_objectdict v = v.
Proof. by destruct v. Qed.


Lemma is_dict_as_objectdict (v : value) :
  is_dict (as_objectdict v) = is_dict v.
Proof. by destruct v. Qed.

(** Once through the guard, a value goes through it unchanged. *)
Lemma as_objectdict_idemp (v : value) :
  as_objectdict (as_objectdict v) = as_objectdict v.
Proof. by destruct v. Qed.

Lemma setitem_lookup (self : gmap string value) (key k : string) (v : value) :
  __setitem__ self key v !! k =
  if decide (key = k) then Some (as_objectdict v) else self !! k.
Proof. unfold __setitem__. apply lookup_insert. Qed.

Lemma update_lookup (self m : gmap string value) (k : string) :
  update self m !! k =
  match m !! k with
  | Some x => Some (as_objectdict x)
  | None => self !! k
  end.
Proof.
  unfold update, __setitem__.
  rewrite (map_fold_insert_lookup
             (λ _ x _, as_objectdict (as_objectdict x))) by done.
  destruct (m !! k); [|done]. by rewrite as_objectdict_idemp.
Qed.

(** The constructor [ObjectDict(m)], as the source has it: [__init__] calls
    [update] on the new object. *)
Lemma as_objectdict_VDict (m : gmap string value) :
  as_objectdict (VDict m) = VObj (__init__ m).
Proof.
  rewrite as_objectdict_fmap. f_equal. apply map_eq. intros k.
  unfold __init__. rewrite update_lookup, lookup_fmap, lookup_empty.
  by destruct (m !! k).
Qed.

(** ** The loop of [merge] *)

Lemma merge_step_insert (key : string) (arg : value)
    (self : gmap string value) :
  merge_step merge_value key arg self =
  <[key := merged_item (self !! key) arg]> self.
Proof.
  unfold merge_step, merged_item, __setitem__. cbn zeta.
  rewrite as_objectdict_idemp.
  destruct (is_dict arg); by destruct (self !! key) as [[]|].
Qed.

Lemma merge_value_fold (self : gmap string value) (arg : value) :
  is_dict arg = true →
  merge_value self arg = map_fold (merge_step merge_value) self (items_of arg).
Proof. by destruct arg. Qed.

Lemma merge_value_lookup (self : gmap string value) (arg : value)
    (k : string) :
  is_dict arg = true →
  merge_value self arg !! k =
  match items_of arg !! k with
  | Some x => Some (merged_item (self !! k) x)
  | None => self !! k
  end.
Proof.
  intros Hd. rewrite (merge_value_fold _ _ Hd).
  rewrite (map_fold_ext_in _
             (λ key x acc, <[key := merged_item (acc !! key) x]> acc)).
  - apply (map_fold_insert_lookup (λ key x acc, merged_item (acc !! key) x)).
    intros key x acc _ ->. done.
  - intros key x acc _. apply merge_step_insert.
Qed.

Lemma merge_lookup (self m : gmap string value) (k : string) :
  merge self m !! k =
  match m !! k with
  | Some x => Some (merged_item (self !! k) x)
  | None => self !! k
  end.
Proof. unfold merge. by rewrite merge_value_lookup. Qed.

Lemma merge_value_items (self : gmap string value) (arg : value) :
  is_dict arg = true → merge_value self arg = merge self (items_of arg).
Proof. by destruct arg. Qed.

(** The recursive call gives the same result on the item before and after
    the guard. *)
Lemma merge_value_as_objectdict (arg : value) :
  ∀ self, merge_value self (as_objectdict arg) = merge_value self arg.
Proof.
  induction arg as [a|m IH|m IH] using value_items_ind; intros self;
    [done| |done].
  rewrite as_objectdict_fmap. cbn [merge_value]. rewrite map_fold_fmap.
  apply map_fold_ext_in. intros key x acc Hx. cbn [compose].
  rewrite !merge_step_insert. f_equal. unfold merged_item.
  rewrite is_dict_as_objectdict, as_objectdict_idemp.
  destruct (acc !! key) as [[| |sub]|]; try done.
  destruct (is_dict x); [|done]. f_equal. by apply (IH key).
Qed.

(** [merge], with its loop as the source writes it: the guard, then the
    recursive call on the value after the guard, or the assignment. *)
Lemma merge_unfold (self m : gmap string value) :
  merge self m =
  map_fold (λ key arg self,
              if is_dict arg then
                let v := as_objectdict arg in
                match self !! key with
                | Some (VObj sub) =>
                    <[key := VObj (merge sub (items_of v))]> self
                | _ => __setitem__ self key v
                end
              else __setitem__ self key arg) self m.
Proof.
  unfold merge at 1. cbn [merge_value]. apply map_fold_ext_in.
  intros key arg acc _. unfold merge_step.
  destruct (is_dict arg) eqn:Hd; [|done]. cbn zeta.
  destruct (acc !! key) as [[| |sub]|]; try done.
  rewrite <- merge_value_items by (by rewrite is_dict_as_objectdict).
  by rewrite merge_value_as_objectdict.
Qed.

(** ** The invariant *)

Lemma content_as_objectdict (v : value) :
  content (as_objectdict v) = content v.
Proof.
  induction v as [a|m IH|m IH] using value_items_ind; [done| |done].
  rewrite as_objectdict_fmap. cbn [content]. f_equal.
  rewrite <- map_fmap_compose. apply map_fmap_ext.
  intros k x Hx. by apply (IH k).
Qed.

Lemma deep_obj_sound (v : value) : deep_obj v = true → sound v = true.
Proof. by destruct v. Qed.


Lemma sound_item (arg : value) (k : string) (x : value) :
  sound arg = true → items_of arg !! k = Some x → sound x = true.
Proof.
  destruct arg as [a|m|m]; cbn [items_of].
  - by rewrite lookup_empty.
  - intros Hm. change (all_values sound m = true) in Hm.
    rewrite all_values_spec in Hm. apply Hm.
  - intros Hm Hk. change (all_values deep_obj m = true) in Hm.
    rewrite all_values_spec in Hm. apply deep_obj_sound, (Hm k x Hk).
Qed.






Lemma invariant_item (self : gmap string value) (k : string)
    (existing : value) :
  invariant self = true → self !! k = Some existing →
  is_dict existing = true →
  existing = VObj (items_of existing)
  ∧ invariant (items_of existing) = true.
Proof.
  unfold invariant at 1. rewrite all_values_spec. intros Hself Hk Hd.
  specialize (Hself k existing Hk). by destruct existing.
Qed.

(** ** [ObjectDict.merge] *)

(** C1.  The deep-merge rule.  On a configuration tree [t] (an [ObjectDict]
    that satisfies the invariant), [t.merge(m)] leaves under each key: the
    value [t] had, when [m] has no such key; the recursive merge of the two
    mappings, when [t] and [m] both hold a mapping there; and the incoming
    value otherwise, whether the key is new or not.  The incoming value is
    stored after the guard, which keeps its content.  The mapping merged
    recursively is again a configuration tree, so the rule describes what
    happens at every depth. *)
Theorem merge_deep_merge_rule (t m : gmap string value) (key : string) :
  invariant t = true →
  merge t m !! key =
    match m !! key with
    | None => t !! key
    | Some incoming =>
        match t !! key with
        | Some existing =>
            if is_dict existing && is_dict incoming
            then Some (VObj (merge (items_of existing) (items_of incoming)))
            else Some (as_objectdict incoming)
        | None => Some (as_objectdict incoming)
        end
    end
  ∧ (∀ existing, t !! key = Some existing → is_dict existing = true →
                 invariant (items_of existing) = true)
  ∧ (∀ incoming, content (as_objectdict incoming) = content incoming).
Proof.
  intros Ht. split; [|split].
  - rewrite merge_lookup. destruct (m !! key) as [incoming|]; [|done].
    destruct (t !! key) as [existing|] eqn:Hkey; [|done].
    destruct (is_dict existing) eqn:Hd; cbn [andb].
    + destruct (invariant_item t key existing Ht Hkey Hd) as [-> _].
      cbn [merged_item items_of].
      destruct (is_dict incoming) eqn:Hi; [|done].
      by rewrite merge_value_items.
    + by destruct existing.
  - intros existing Hkey Hd. by apply (invariant_item t key).
  - apply content_as_objectdict.
Qed.

Lemma merge_deep_merge_rule_witness :
  invariant Examples.defaults = true
  ∧ merge Examples.defaults Examples.layer !! "bump" =
    Some (VObj (merge {[ "part" := VAtom (AStr "patch");
                         "suffix" := VAtom ANone ]}
                      {[ "suffix" := VAtom (AStr "dev") ]})).
Proof.
  split; [vm_compute; reflexivity|].
  destruct (merge_deep_merge_rule Examples.defaults Examples.layer "bump")
    as [H _]; [vm_compute; reflexivity|].
  rewrite H. vm_compute. reflexivity.
Defined.

(** C2.  [merge] deletes no key.  A key that can be read in [t] at a level
    that [t.merge(m)] reaches through recursive calls (the top level, for the
    empty path) can still be read there afterwards. *)
Theorem merge_keeps_keys (t m : gmap string value) (p : list string)
    (key : string) :
  merged_at t m p = true →
  has_path (VObj t) (p ++ [key]) = true →
  has_path (VObj (merge t m)) (p ++ [key]) = true.
Proof.
  revert t m. induction p as [|k p IH]; intros t m; cbn [app].
  - intros _. cbn [has_path items_of]. rewrite merge_lookup.
    destruct (t !! key) as [old|]; [|done]. by destruct (m !! key).
  - cbn [merged_at has_path items_of]. rewrite merge_lookup.
    destruct (t !! k) as [[| |sub]|]; try done.
    destruct (m !! k) as [arg|]; [|done].
    intros [Hd Hrec]%andb_true_iff Hpath. cbn [merged_item]. rewrite Hd.
    rewrite merge_value_items by done. by apply IH.
Qed.

Lemma merge_keeps_keys_witness :
  has_path (VObj (merge Examples.defaults Examples.layer))
           (["bump"] ++ ["part"]) = true.
Proof.
  apply (merge_keeps_keys Examples.defaults Examples.layer ["bump"] "part");
    vm_compute; reflexivity.
Defined.

(** C5.  Merging the empty mapping changes nothing: the tree is equal to
    what it was, also after an empty file layer and an empty command-line
    layer in turn. *)
Theorem merge_empty_identity (t : gmap string value) :
  merge t ∅ = t ∧ merge (merge t ∅) ∅ = t.
Proof.
  assert (H : ∀ self : gmap string value, merge self ∅ = self).
  { intros self. apply map_eq. intros k.
    by rewrite merge_lookup, lookup_empty. }
  by rewrite !H.
Qed.

(** ** The invariant of [ObjectDict] *)



(** ** Attribute access *)

Lemma setattr_setitem (t : gmap string value) (k : string) (v : value) :
  __setattr__ t k v = __setitem__ t k v.
Proof. unfold __setattr__, __setitem__. by rewrite as_objectdict_idemp. Qed.

(** C4, as the code has it.  For a key that the normal attribute lookup does
    not find on the class, reading [t.k] gives what [t[k]] gives, so
    [cfg.bump.part] is [cfg['bump']['part']] when neither name is an
    attribute of the class.  For every key, setting [t.k = v] stores what
    [t[k] = v] stores, the value after the guard. *)
Theorem attribute_access_mirrors_items (inherited : string → bool)
    (t : gmap string value) (k : string) (v : value) :
  (class_attribute inherited k = false →
   getattr inherited t k = __getitem__ t k
   ∧ (∀ sub k', t !! k = Some (VObj sub) →
                class_attribute inherited k' = false →
                getattr inherited t k = Value (VObj sub)
                ∧ getattr inherited sub k' = __getitem__ sub k'))
  ∧ __setattr__ t k v = __setitem__ t k v
  ∧ __setattr__ t k v !! k = Some (as_objectdict v).
Proof.
  rewrite setattr_setitem, setitem_lookup.
  split; [|split; [done|by case_decide]].
  intros Hk. unfold getattr, __getattr__. rewrite Hk. split; [done|].
  intros sub k' Hsub Hk'. rewrite Hk'. unfold __getitem__ at 1.
  by rewrite Hsub.
Qed.

Lemma attribute_access_mirrors_items_witness :
  getattr Examples.dict_names Examples.defaults "bump" =
    __getitem__ Examples.defaults "bump"
  ∧ getattr Examples.dict_names
      {[ "part" := VAtom (AStr "patch"); "suffix" := VAtom ANone ]} "part" =
    Value (VAtom (AStr "patch"))
  ∧ __setattr__ Examples.defaults "merge" (VDict Examples.layer) =
    __setitem__ Examples.defaults "merge" (VDict Examples.layer).
Proof.
  destruct (attribute_access_mirrors_items Examples.dict_names
              Examples.defaults "bump" (VAtom ANone))
    as [Hread _].
  destruct (Hread eq_refl) as [Hbump Hnested].
  split; [exact Hbump|]. split.
  - destruct (Hnested {[ "part" := VAtom (AStr "patch");
                         "suffix" := VAtom ANone ]} "part") as [_ ->];
      vm_compute; reflexivity.
  - apply (attribute_access_mirrors_items Examples.dict_names
             Examples.defaults "merge" (VDict Examples.layer)).
Defined.

(** C4, as stated, fails: a key that is also the name of a method of the
    class is read as the method, whatever the names [dict] gives. *)
Lemma attribute_access_shadowed_by_method :
  ∃ (t : gmap string value) (k : string),
    is_Some (t !! k)
    ∧ ∀ inherited, getattr inherited t k ≠ __getitem__ t k.
Proof.
  exists {[ "merge" := VAtom (AInt 1) ]}, "merge". split.
  - by rewrite lookup_singleton_eq.
  - intros inherited. unfold getattr, class_attribute.
    rewrite bool_decide_eq_true_2 by (vm_compute; set_solver).
    cbn [orb]. unfold __getitem__. by rewrite lookup_singleton_eq.
Qed.

(** C10, as the code has it.  Reading an attribute whose name is neither a
    key of [t] nor an attribute of the class raises [KeyError]: [__getattr__]
    hands the name to the item access. *)
Theorem getattr_missing_key_raises_KeyError (inherited : string → bool)
    (t : gmap string value) (k : string) :
  t !! k = None → class_attribute inherited k = false →
  getattr inherited t k = Raise (KeyError k).
Proof.
  intros Hk Hc. unfold getattr, __getattr__, __getitem__. by rewrite Hc, Hk.
Qed.

Lemma getattr_missing_key_raises_KeyError_witness :
  getattr Examples.dict_names Examples.defaults "tag" = Raise (KeyError "tag").
Proof.
  apply getattr_missing_key_raises_KeyError; vm_compute; reflexivity.
Defined.

(** C10, as stated, fails: [merge] is no method of [dict], and when it is no
    key of [t] either, [t.merge] is the method that [ObjectDict] defines, not
    a [KeyError]. *)
Lemma getattr_missing_key_finds_method :
  ∃ (t : gmap string value) (k : string),
    t !! k = None
    ∧ Examples.dict_names k = false
    ∧ ∀ inherited,
        getattr inherited t k = BoundMethod k
        ∧ getattr inherited t k ≠ Raise (KeyError k).
Proof.
  exists ∅, "merge". split; [done|]. split; [done|].
  intros inherited. unfold getattr, class_attribute.
  rewrite bool_decide_eq_true_2 by (vm_compute; set_solver). done.
Qed.

(** ** [execute] *)

Section ExecuteFacts.

Import Execute.

Context {W : Type}.
Variable is_space : ascii → bool.
Variable py3 : bool.
Variable format : string → gmap string string → option string.
Variable shlex_split : string → option (list string).
Variable spawn : list string → W → option (Z * string) * W.


(** A blank line is a line of whitespace only. *)
Lemma lstrip_empty (s : string) :
  lstrip is_space s = EmptyString ↔
  forallb is_space (String.list_ascii_of_string s) = true.
Proof.
  induction s as [|c s IH];
    cbn [lstrip String.list_ascii_of_string forallb]; [done|].
  destruct (is_space c); cbn [andb]; [done|]. split; discriminate.
Qed.

Lemma rstrip_lstrip_empty (s : string) :
  rstrip is_space (lstrip is_space s) = EmptyString →
  lstrip is_space s = EmptyString.
Proof.
  induction s as [|c s IH]; cbn [lstrip]; [done|].
  destruct (is_space c) eqn:Hc; [done|]. cbn [rstrip].
  destruct (rstrip is_space s); [by rewrite Hc|done].
Qed.

Lemma blank_line (line : string) :
  nonempty (strip is_space line) = false ↔
  forallb is_space (String.list_ascii_of_string line) = true.
Proof.
  rewrite <- lstrip_empty. unfold strip. split.
  - intros H. apply rstrip_lstrip_empty.
    by destruct (rstrip is_space (lstrip is_space line)).
  - by intros ->.
Qed.

(** One turn of the loop, in each of its three modes. *)

Lemma run_commands_dryrun_step (verbose : bool) (cmd : list string)
    (rest : list (list string)) (output : string) (st : state) :
  run_commands py3 spawn verbose true (cmd :: rest) output st =
  run_commands py3 spawn verbose true rest output
    (State (world st) (spawned st)
       (emitted st ++ [LogDryrun ("execute: " +:+ join_spaces cmd)])).
Proof. done. Qed.

Lemma run_commands_verbose_step (cmd : list string)
    (rest : list (list string)) (output : string) (st : state) :
  run_commands py3 spawn true false (cmd :: rest) output st =
  match spawn cmd (world st) with
  | (Some (code, out), w) =>
      if bool_decide (code = 0%Z)
      then run_commands py3 spawn true false rest output
             (State w (spawned st ++ [cmd]) (emitted st))
      else (inl (CalledProcessError code cmd ""),
            State w (spawned st ++ [cmd]) (emitted st))
  | (None, w) => (inl (SpawnError cmd), State w (spawned st) (emitted st))
  end.
Proof.
  cbn [Execute.run_commands]. unfold bind, check_call, bind, call.
  destruct (spawn cmd (world st)) as [[[code out]|] w]; [|done].
  by case_bool_decide.
Qed.

Lemma run_commands_quiet_step (cmd : list string)
    (rest : list (list string)) (output : string) (st : state) :
  run_commands py3 spawn false false (cmd :: rest) output st =
  match spawn cmd (world st) with
  | (Some (code, out), w) =>
      if bool_decide (code = 0%Z)
      then
        if py3
        then (inl TypeError, State w (spawned st ++ [cmd]) (emitted st))
        else run_commands py3 spawn false false rest (output +:+ out)
               (State w (spawned st ++ [cmd]) (emitted st))
      else run_commands py3 spawn false false rest output
             (State w (spawned st ++ [cmd])
                ((emitted st ++ [LogError cmd code]) ++ [Print out]))
  | (None, w) => (inl (SpawnError cmd), State w (spawned st) (emitted st))
  end.
Proof.
  cbn [Execute.run_commands].
  unfold bind, try_except, check_output, add_output, bind, call.
  destruct (spawn cmd (world st)) as [[[code out]|] w]; [|done].
  case_bool_decide; [|done]. by destruct py3.
Qed.






End ExecuteFacts.



(** C3, on the code.  Without [verbose], a command that exits with a status
    other than zero raises nothing: the failure is logged, its output
    printed, the next command is run and the call returns the output of the
    commands that succeeded. *)
Theorem execute_goes_on_after_failure :
  Examples.run (Execute.CVectors [["false"]; ["echo"; "done"]]) false false ∅ =
  (inr (Some "done/"),
   Execute.State () [["false"]; ["echo"; "done"]]
     [Execute.LogError ["false"] 1; Execute.Print "failed"]).
Proof. vm_compute. reflexivity. Qed.

(** On Python 3 the failure is passed over in the same way and the next
    command is run; the call then raises [TypeError], at the output of the
    command that succeeded. *)
Lemma execute_goes_on_after_failure_python3 :
  Examples.run3 (Execute.CVectors [["false"]; ["echo"; "done"]]) false false ∅
  = (inl Execute.TypeError,
     Execute.State () [["false"]; ["echo"; "done"]]
       [Execute.LogError ["false"] 1; Execute.Print "failed"]).
Proof. vm_compute. reflexivity. Qed.

(** With [verbose], the same commands raise at the first failure. *)
Lemma execute_verbose_raises :
  Examples.run (Execute.CVectors [["false"]; ["echo"; "done"]]) true false ∅ =
  (inl (Execute.CalledProcessError 1 ["false"] ""),
   Execute.State () [["false"]] []).
Proof. vm_compute. reflexivity. Qed.

(** ** The layers of the configuration *)

Lemma boolean_flag_not_option (flag : string) :
  flag ∈ Config.boolean_flags → flag ≠ "file" ∧ flag ≠ "bump".
Proof.
  intros Hflag. split; intros ->;
    repeat (apply elem_of_cons in Hflag as [Hflag|Hflag]; [discriminate|]);
    by apply elem_of_nil in Hflag.
Qed.

Lemma cli_layer_flag (args : Config.parsed_args) (flag : string) :
  flag ∈ Config.boolean_flags →
  Config.cli_layer args !! flag =
  (λ b, VAtom (ABool b)) <$> Config.flags args !! flag.
Proof.
  intros Hflag. destruct (boolean_flag_not_option flag Hflag) as [Hf Hb].
  unfold Config.cli_layer. cbn zeta.
  rewrite lookup_union_l, lookup_union_l.
  - rewrite lookup_fmap, map_lookup_filter.
    destruct (Config.flags args !! flag) as [b|]; [|done].
    cbn. by rewrite option_guard_True.
  - destruct (Config.file args); [|done]. by rewrite lookup_singleton_ne.
  - case_decide; [done|]. by rewrite lookup_singleton_ne.
Qed.

(** C6.  For a boolean flag, the resolved value is the one the supplied form
    of the flag sets; when no form was supplied, it is the value of the tree
    made of the defaults and the file layer. *)
Theorem resolved_boolean_flag (defaults layer : gmap string value)
    (args : Config.parsed_args) (flag : string) :
  flag ∈ Config.boolean_flags →
  Config.Resolve defaults layer args !! flag =
  match Config.flags args !! flag with
  | Some b => Some (VAtom (ABool b))
  | None => Config.OverrideFromFileConfig defaults layer !! flag
  end.
Proof.
  intros Hflag. unfold Config.Resolve, Config.OverrideFromArgs.
  rewrite merge_lookup, (cli_layer_flag args flag Hflag).
  destruct (Config.flags args !! flag) as [b|]; [|done]. cbn [fmap option_fmap option_map].
  unfold merged_item.
  by destruct (Config.OverrideFromFileConfig defaults layer !! flag)
    as [[| |sub]|].
Qed.

Lemma resolved_boolean_flag_witness :
  Config.Resolve Examples.defaults Examples.layer
    (Config.ParsedArgs {[ "commit" := false ]} None ∅) !! "push" =
  Some (VAtom (ABool true))
  ∧ Config.Resolve Examples.defaults Examples.layer
      (Config.ParsedArgs {[ "commit" := false ]} None ∅) !! "commit" =
    Some (VAtom (ABool false)).
Proof.
  split.
  - rewrite (resolved_boolean_flag Examples.defaults Examples.layer
               (Config.ParsedArgs {[ "commit" := false ]} None ∅) "push")
      by (apply (bool_decide_unpack _); vm_compute; exact I).
    vm_compute. reflexivity.
  - vm_compute. reflexivity.
Defined.

(** The scenarios of the design: the file sets [push], the command line is
    silent or forces the other value. *)
Example push_from_file_kept :
  Config.Resolve Examples.defaults {[ "push" := VAtom (ABool true) ]}
    (Config.ParsedArgs ∅ None ∅) !! "push" = Some (VAtom (ABool true)).
Proof. vm_compute. reflexivity. Qed.

Example push_forced_from_args :
  Config.Resolve Examples.defaults {[ "push" := VAtom (ABool false) ]}
    (Config.ParsedArgs {[ "push" := true ]} None ∅) !! "push" =
  Some (VAtom (ABool true)).
Proof. vm_compute. reflexivity. Qed.

(** ** Versions *)




Lemma append_empty_r (s : string) : s +:+ "" = s.
Proof.
  induction s as [|c s IH]; [done|].
  change (String c (s +:+ "") = String c s). by rewrite IH.
Qed.








(** The scenario of the design. *)
Example parse_dev4 :
  Version.Parse "1.2.3-dev4" =
  Some (Version.MkVersion 1 2 3 (Some "dev") (Some 4%N)).
Proof. vm_compute. reflexivity. Qed.

(** * Further properties of [ObjectDict] *)

(** X1.  Writing an item and reading it back gives the value after the
    guard: an [ObjectDict] of the same content for a plain dictionary, the
    value itself otherwise.  The other keys read as before. *)
Theorem setitem_then_getitem (t : gmap string value) (k : string)
    (v : value) :
  __getitem__ (__setitem__ t k v) k = Value (as_objectdict v)
  ∧ content (as_objectdict v) = content v
  ∧ (is_dict v = false → as_objectdict v = v)
  ∧ (∀ k', k' ≠ k → __getitem__ (__setitem__ t k v) k' = __getitem__ t k').
Proof.
  unfold __getitem__. split; [|split; [|split]].
  - rewrite setitem_lookup. by case_decide.
  - apply content_as_objectdict.
  - apply as_objectdict_not_dict.
  - intros k' Hk'. rewrite setitem_lookup. by case_decide.
Qed.

(** X2.  [update] overrides: each key of the argument reads as its value
    after the guard, whatever was there, and a mapping that was there is not
    merged; the other keys read as before; the keys afterwards are those of
    both sides. *)
Theorem update_overrides (self m : gmap string value) :
  (∀ k, update self m !! k =
        match m !! k with
        | Some x => Some (as_objectdict x)
        | None => self !! k
        end)
  ∧ dom (update self m) = dom self ∪ dom m.
Proof.
  split; [apply update_lookup|].
  apply set_eq. intros k.
  rewrite elem_of_union, !elem_of_dom, update_lookup.
  destruct (m !! k) as [x|], (self !! k) as [y|]; split;
    try (intros _; eauto; fail); try (intros [[? [=]]|[? [=]]]; fail).
  intros [? [=]].
Qed.

(** X3.  The keys of the top level after [merge] are those of the tree and
    those of the argument: none is lost and none comes from elsewhere. *)
Theorem merge_key_set (self m : gmap string value) :
  dom (merge self m) = dom self ∪ dom m.
Proof.
  apply set_eq. intros k.
  rewrite elem_of_union, !elem_of_dom, merge_lookup.
  destruct (m !! k) as [x|], (self !! k) as [y|]; split;
    try (intros _; eauto; fail); try (intros [[? [=]]|[? [=]]]; fail).
  intros [? [=]].
Qed.

(** X4.  [ObjectDict(m)] has the content of [m], at every depth: the two
    compare equal. *)
Theorem init_keeps_content (m : gmap string value) :
  content (VObj (__init__ m)) = content (VDict m).
Proof. rewrite <- as_objectdict_VDict. apply content_as_objectdict. Qed.

(** X5.  Building an [ObjectDict] from [m] is merging [m] into an empty
    one. *)
Theorem init_is_merge_into_empty (m : gmap string value) :
  __init__ m = merge ∅ m.
Proof.
  apply map_eq. intros k. unfold __init__.
  rewrite update_lookup, merge_lookup, lookup_empty.
  by destruct (m !! k).
Qed.

Lemma merge_value_self (x : value) :
  sound x = true → is_dict x = true →
  merge_value (items_of (as_objectdict x)) x = items_of (as_objectdict x).
Proof.
  induction x as [a|m IH|m IH] using value_items_ind; [done|..];
    intros Hx _; apply map_eq; intros k;
    rewrite merge_value_lookup by done; cbn [items_of].
  - rewrite as_objectdict_fmap. cbn [items_of]. rewrite lookup_fmap.
    destruct (m !! k) as [y|] eqn:Hk; [|done]. cbn [fmap option_fmap option_map].
    f_equal. pose proof (sound_item (VDict m) k y Hx Hk) as Hy.
    unfold merged_item.
    destruct (as_objectdict y) as [a|d|sub] eqn:Hay; [done|by destruct y|].
    destruct (is_dict y) eqn:Hd; [|by destruct y].
    f_equal. specialize (IH k y Hk Hy Hd). by rewrite Hay in IH.
  - cbn [as_objectdict items_of].
    destruct (m !! k) as [y|] eqn:Hk; [|done]. f_equal.
    pose proof (sound_item (VObj m) k y Hx Hk) as Hy.
    change (all_values deep_obj m = true) in Hx.
    rewrite all_values_spec in Hx. specialize (Hx k y Hk).
    destruct y as [a|d|sub]; [done|done|].
    cbn [merged_item is_dict]. f_equal. apply (IH k (VObj sub) Hk Hy eq_refl).
Qed.

(** Merging [y] over what a merge of [y] left changes nothing. *)
Lemma merged_item_idemp (old : option value) (y : value) :
  sound y = true →
  (is_dict y = true →
   ∀ sub, merge_value (merge_value sub y) y = merge_value sub y) →
  merged_item (Some (merged_item old y)) y = merged_item old y.
Proof.
  intros Hy IH. destruct (is_dict y) eqn:Hd.
  - assert (Hfresh : merged_item (Some (as_objectdict y)) y
                     = as_objectdict y).
    { pose proof (merge_value_self y Hy Hd) as Hself.
      destruct y as [a|d|sub]; [done|..].
      - rewrite as_objectdict_fmap in *. cbn [merged_item is_dict items_of]
          in *. by rewrite Hself.
      - cbn [as_objectdict merged_item is_dict items_of] in *.
        by rewrite Hself. }
    destruct old as [[a|d|sub]|]; [exact Hfresh..| |exact Hfresh].
    change (merged_item (Some (VObj sub)) y)
      with (if is_dict y then VObj (merge_value sub y) else as_objectdict y).
    rewrite Hd. cbn [merged_item]. rewrite Hd. f_equal. by apply IH.
  - destruct y as [a| |]; [|done..]. by destruct old as [[| |]|].
Qed.

Lemma merge_value_idemp (x : value) :
  sound x = true → is_dict x = true →
  ∀ self, merge_value (merge_value self x) x = merge_value self x.
Proof.
  induction x as [a|m IH|m IH] using value_items_ind; [done|..];
    intros Hx Hd self; apply map_eq; intros k;
    rewrite (merge_value_lookup (merge_value self _)) by done;
    rewrite merge_value_lookup by done; cbn [items_of];
    (destruct (m !! k) as [y|] eqn:Hk; [|done]); f_equal;
    pose proof (sound_item _ k y Hx Hk) as Hy;
    (apply merged_item_idemp; [done|]); intros Hdy; by apply (IH k y Hk).
Qed.

(** X6.  Merging the same mapping a second time changes nothing, when the
    [ObjectDict]s the mapping holds satisfy the invariant. *)
Theorem merge_idempotent (t m : gmap string value) :
  sound (VDict m) = true → merge (merge t m) m = merge t m.
Proof. intros Hm. by apply merge_value_idemp. Qed.

Lemma merge_idempotent_witness :
  merge (merge Examples.defaults Examples.layer) Examples.layer =
  merge Examples.defaults Examples.layer.
Proof. apply merge_idempotent. vm_compute. reflexivity. Defined.

(** X7.  Wrapping the argument in an [ObjectDict] first changes neither the
    result of [merge] nor that of [update]. *)
Theorem objectdict_argument (t m : gmap string value) :
  merge t (__init__ m) = merge t m ∧ update t (__init__ m) = update t m.
Proof.
  split.
  - unfold merge. rewrite <- (merge_value_as_objectdict (VDict m)).
    by rewrite as_objectdict_VDict.
  - apply map_eq. intros k. rewrite !update_lookup. unfold __init__.
    rewrite update_lookup, lookup_empty.
    destruct (m !! k); [|done]. by rewrite as_objectdict_idemp.
Qed.

(** X8.  [merge] is [update] when no key holds a mapping on both sides: the
    two differ only where an [ObjectDict] of the tree meets a mapping of the
    argument. *)
Theorem merge_is_update_without_overlap (t m : gmap string value) :
  (∀ k x sub, m !! k = Some x → t !! k = Some (VObj sub) →
              is_dict x = false) →
  merge t m = update t m.
Proof.
  intros Hflat. apply map_eq. intros k.
  rewrite merge_lookup, update_lookup.
  destruct (m !! k) as [x|] eqn:Hk; [|done]. f_equal. unfold merged_item.
  destruct (t !! k) as [[a|d|sub]|] eqn:Hold; try done.
  by rewrite (Hflat k x sub Hk Hold).
Qed.

Lemma merge_is_update_without_overlap_witness :
  merge Examples.defaults {[ "push" := VAtom (ABool true) ]} =
  update Examples.defaults {[ "push" := VAtom (ABool true) ]}.
Proof.
  apply merge_is_update_without_overlap. intros k x sub Hk _.
  apply lookup_singleton_Some in Hk as [_ <-]. reflexivity.
Defined.

(** X9.  Reading an attribute that was just set gives the value after the
    guard, except under the name of an attribute of the class: the item is
    stored all the same, and the name still reads as the method. *)
Theorem setattr_then_getattr (inherited : string → bool)
    (t : gmap string value) (k : string) (v : value) :
  getattr inherited (__setattr__ t k v) k =
    (if class_attribute inherited k then BoundMethod k
     else Value (as_objectdict v))
  ∧ __getitem__ (__setattr__ t k v) k = Value (as_objectdict v).
Proof.
  unfold getattr, __getattr__, __getitem__.
  rewrite setattr_setitem, setitem_lookup, decide_True by done.
  split; [|done]. by destruct (class_attribute inherited k).
Qed.

Lemma has_path_items (v : value) (key : string) (p : list string) :
  has_path v (key :: p) = has_path (VDict (items_of v)) (key :: p).
Proof. done. Qed.

(** X10.  At a level that [merge] reaches through recursive calls, a key the
    argument does not mention keeps its value, and a key under which the
    argument holds a scalar takes that scalar. *)
Theorem merge_value_at (t m : gmap string value) (p : list string)
    (key : string) :
  merged_at t m p = true →
  (has_path (VDict m) (p ++ [key]) = false →
   value_at (VObj (merge t m)) (p ++ [key]) =
   value_at (VObj t) (p ++ [key]))
  ∧ (∀ a, value_at (VDict m) (p ++ [key]) = Some (VAtom a) →
          value_at (VObj (merge t m)) (p ++ [key]) = Some (VAtom a)).
Proof.
  revert t m. induction p as [|k p IH]; intros t m; cbn [app].
  - intros _. cbn [has_path value_at items_of]. rewrite merge_lookup.
    split.
    + by destruct (m !! key).
    + intros a. destruct (m !! key) as [x|]; [|done]. intros [= ->].
      unfold merged_item. by destruct (t !! key) as [[| |]|].
  - cbn [merged_at]. destruct (t !! k) as [[| |sub]|] eqn:Hold; try done.
    destruct (m !! k) as [arg|] eqn:Hk; [|done].
    intros [Hd Hrec]%andb_true_iff.
    destruct (IH sub (items_of arg) Hrec) as [IHkeep IHset].
    cbn [has_path value_at items_of]. rewrite merge_lookup, Hold, Hk.
    cbn [merged_item]. rewrite Hd, merge_value_items by done.
    split.
    + intros Hpath. apply IHkeep.
      destruct p; cbn [app] in *; by rewrite <- has_path_items.
    + intros a Ha. apply IHset. by destruct p, arg.
Qed.

Lemma merge_value_at_witness :
  value_at (VObj (merge Examples.defaults Examples.layer))
    (["bump"] ++ ["part"]) =
  value_at (VObj Examples.defaults) (["bump"] ++ ["part"]).
Proof.
  destruct (merge_value_at Examples.defaults Examples.layer ["bump"] "part")
    as [Hkeep _]; [vm_compute; reflexivity|].
  apply Hkeep. vm_compute. reflexivity.
Defined.

(** * Further properties of [execute] *)

Section ExecuteMore.

Import Execute.

Context {W : Type}.
Variable is_space : ascii → bool.
Variable py3 : bool.
Variable format : string → gmap string string → option string.
Variable shlex_split : string → option (list string).
Variable spawn : list string → W → option (Z * string) * W.

Lemma run_commands_dryrun_state (verbose : bool)
    (commands : list (list string)) (output : string) (st : state) :
  run_commands py3 spawn verbose true commands output st =
  (inr output,
   State (world st) (spawned st)
     (emitted st
      ++ map (λ cmd, LogDryrun ("execute: " +:+ join_spaces cmd)) commands)).
Proof.
  revert st. induction commands as [|cmd rest IH]; intros st.
  - cbn. rewrite app_nil_r. by destruct st.
  - rewrite run_commands_dryrun_step, IH. cbn [world spawned emitted map].
    by rewrite <- app_assoc.
Qed.

(** X11.  With [dryrun], no command is spawned and the machine is left as it
    was, whatever [verbose] is: the call returns the empty string and logs
    one line per command, in order. *)
Theorem execute_dryrun (c : command) (verbose : bool)
    (replacements : gmap string string) (st : state)
    (commands : list (list string)) :
  truthy c = true →
  commands_of is_space format shlex_split c replacements = inr commands →
  execute is_space py3 format shlex_split spawn c verbose
    (Some replacements) true st =
  (inr (Some ""),
   State (world st) (spawned st)
     (emitted st
      ++ map (λ cmd, LogDryrun ("execute: " +:+ join_spaces cmd)) commands)).
Proof.
  intros Hc Hcmds. unfold execute. cbn zeta. cbn [default from_option id].
  rewrite Hc, Hcmds. cbn [negb]. unfold bind.
  by rewrite run_commands_dryrun_state.
Qed.

Lemma leading_successes_all (rs : list (option (Z * string))) :
  Forall (λ r, exited_zero r = true) (take (leading_successes rs) rs).
Proof.
  induction rs as [|r rs IH]; cbn [leading_successes]; [constructor|].
  destruct (exited_zero r) eqn:Hr; [|constructor]. by constructor.
Qed.

(** The loop with [verbose], from what the children do. *)
Lemma run_commands_verbose_outcome (commands : list (list string))
    (output : string) (st : state) :
  emitted (run_commands py3 spawn true false commands output st).2 =
    emitted st
  ∧ match outcomes spawn commands (world st)
          !! leading_successes (outcomes spawn commands (world st)) with
    | None =>
        (run_commands py3 spawn true false commands output st).1 =
          inr output
        ∧ spawned (run_commands py3 spawn true false commands output st).2 =
          spawned st ++ commands
    | Some (Some (code, out)) =>
        code ≠ 0%Z
        ∧ ∃ cmd,
            commands
              !! leading_successes (outcomes spawn commands (world st)) =
              Some cmd
            ∧ (run_commands py3 spawn true false commands output st).1 =
              inl (CalledProcessError code cmd "")
            ∧ spawned
                (run_commands py3 spawn true false commands output st).2 =
              spawned st
              ++ take (S (leading_successes
                            (outcomes spawn commands (world st)))) commands
    | Some None =>
        ∃ cmd,
          commands
            !! leading_successes (outcomes spawn commands (world st)) =
            Some cmd
          ∧ (run_commands py3 spawn true false commands output st).1 =
            inl (SpawnError cmd)
          ∧ spawned (run_commands py3 spawn true false commands output st).2 =
            spawned st
            ++ take (leading_successes (outcomes spawn commands (world st)))
                 commands
    end.
Proof.
  revert st. induction commands as [|cmd rest IH]; intros st.
  { split; [done|]. cbn. by rewrite app_nil_r. }
  rewrite run_commands_verbose_step. cbn [outcomes].
  destruct (spawn cmd (world st)) as [[[code out]|] w].
  - cbn [leading_successes exited_zero]. case_bool_decide as Hcode.
    + specialize (IH (State w (spawned st ++ [cmd]) (emitted st))).
      cbn [world spawned emitted] in IH. destruct IH as [He IH].
      split; [done|]. cbn [lookup list_lookup] in *.
      change ((Some (code, out) :: outcomes spawn rest w)
                !! S (leading_successes (outcomes spawn rest w)))
        with (outcomes spawn rest w
                !! leading_successes (outcomes spawn rest w)).
      destruct (outcomes spawn rest w
                  !! leading_successes (outcomes spawn rest w))
        as [[[code' out']|]|].
      * destruct IH as (Hc & cmd' & Hn & Hr & Hs). split; [done|].
        exists cmd'. split; [done|]. split; [done|].
        rewrite Hs. cbn [take]. by rewrite <- app_assoc.
      * destruct IH as (cmd' & Hn & Hr & Hs).
        exists cmd'. split; [done|]. split; [done|].
        rewrite Hs. cbn [take]. by rewrite <- app_assoc.
      * destruct IH as [Hr Hs]. split; [done|].
        rewrite Hs. by rewrite <- app_assoc.
    + split; [done|]. cbn. split; [done|]. exists cmd.
      by rewrite take_0.
  - split; [done|]. cbn. exists cmd. by rewrite app_nil_r.
Qed.

(** X12.  With [verbose], the output of the commands is not captured and
    nothing is logged.  When every command starts and exits with the status
    zero, all are spawned and the call returns the empty string.  Otherwise
    the call stops at the first command that does not: it raises
    [CalledProcessError] with the status of that command when it exited, the
    exception of the start when it did not start, and no command after it is
    spawned. *)
Theorem execute_verbose (c : command) (replacements : gmap string string)
    (st : state) (commands : list (list string)) :
  truthy c = true →
  commands_of is_space format shlex_split c replacements = inr commands →
  let rs := outcomes spawn commands (world st) in
  let n := leading_successes rs in
  let r := execute is_space py3 format shlex_split spawn c true
             (Some replacements) false st in
  emitted r.2 = emitted st
  ∧ Forall (λ o, exited_zero o = true) (take n rs)
  ∧ match rs !! n with
    | None => r.1 = inr (Some "") ∧ spawned r.2 = spawned st ++ commands
    | Some (Some (code, out)) =>
        code ≠ 0%Z
        ∧ ∃ cmd, commands !! n = Some cmd
                 ∧ r.1 = inl (CalledProcessError code cmd "")
                 ∧ spawned r.2 = spawned st ++ take (S n) commands
    | Some None =>
        ∃ cmd, commands !! n = Some cmd
               ∧ r.1 = inl (SpawnError cmd)
               ∧ spawned r.2 = spawned st ++ take n commands
    end.
Proof.
  intros Hc Hcmds rs n r. subst r. unfold execute. cbn zeta.
  cbn [default from_option id]. rewrite Hc, Hcmds. cbn [negb].
  unfold bind, ret.
  destruct (run_commands_verbose_outcome commands "" st) as [He Hm].
  fold rs in Hm. fold n in Hm.
  split; [|split; [apply leading_successes_all|]].
  - by destruct (run_commands py3 spawn true false commands "" st)
      as [[e|out] st'].
  - destruct (rs !! n) as [[[code out]|]|].
    + destruct Hm as (Hcode & cmd & Hn & Hr & Hs). split; [done|].
      exists cmd. split; [done|].
      destruct (run_commands py3 spawn true false commands "" st)
        as [[e|o] st']; cbn in *; [|done]. injection Hr as ->. by split.
    + destruct Hm as (cmd & Hn & Hr & Hs). exists cmd. split; [done|].
      destruct (run_commands py3 spawn true false commands "" st)
        as [[e|o] st']; cbn in *; [|done]. injection Hr as ->. by split.
    + destruct Hm as [Hr Hs].
      destruct (run_commands py3 spawn true false commands "" st)
        as [[e|o] st']; cbn in *; [done|]. injection Hr as ->. by split.
Qed.

Lemma comprehension_inl {A B} (f : A → exn + B) (l : list A) (x : A)
    (e : exn) :
  x ∈ l → f x = inl e → ∃ e', comprehension f l = inl e'.
Proof.
  intros Hx Hfx. induction l as [|y l IH]; [by apply elem_of_nil in Hx|].
  cbn [comprehension]. apply elem_of_cons in Hx as [<-|Hx].
  - rewrite Hfx. by eexists.
  - destruct (f y) as [e1|z]; [by eexists|].
    destruct (IH Hx) as [e' ->]. by eexists.
Qed.

(** X13.  The commands are all built before the first is run: when a line
    that is not blank cannot be formatted, or cannot be cut into arguments,
    the call raises and leaves the state as it was, in every mode. *)
Theorem execute_bad_line (template line : string)
    (replacements : gmap string string) (verbose dryrun : bool)
    (st : state) :
  line ∈ split_lines template →
  nonempty (strip is_space line) = true →
  (format line replacements = None
   ∨ ∃ text, format line replacements = Some text
             ∧ shlex_split text = None) →
  ∃ e, execute is_space py3 format shlex_split spawn (CStr template) verbose
         (Some replacements) dryrun st = (inl e, st).
Proof.
  intros Hline Hblank Hbad.
  assert (Hne : nonempty template = true).
  { destruct template; [|done]. cbn in Hline.
    apply list_elem_of_singleton in Hline as ->. done. }
  assert (Hsplit : ∃ e, split_line format shlex_split replacements line
                        = inl e).
  { unfold split_line, format_part.
    destruct Hbad as [->|(text & -> & ->)]; by eexists. }
  destruct Hsplit as [e Hsplit].
  destruct (comprehension_inl (split_line format shlex_split replacements)
              (filter (λ cmd, nonempty (strip is_space cmd) = true)
                 (split_lines template)) line e) as [e' He']; [|done|].
  { by apply list_elem_of_filter. }
  exists e'. unfold execute. cbn zeta. cbn [default from_option id truthy].
  rewrite Hne. cbn [negb commands_of]. by rewrite He'.
Qed.

Lemma filter_blank_lines (lines : list string) :
  Forall (λ line, forallb is_space (String.list_ascii_of_string line) = true)
    lines →
  filter (λ line, nonempty (strip is_space line) = true) lines = [].
Proof.
  induction 1 as [|line lines Hline _ IH]; [done|].
  rewrite filter_cons_False; [done|].
  apply blank_line in Hline. by rewrite Hline.
Qed.

(** X14.  A template of blank lines only runs nothing and leaves the state
    as it was, in every mode; the call returns the empty string, and [None]
    when the template is the empty string. *)
Theorem execute_blank_template (template : string)
    (replacements : gmap string string) (verbose dryrun : bool)
    (st : state) :
  Forall (λ line, forallb is_space (String.list_ascii_of_string line) = true)
    (split_lines template) →
  execute is_space py3 format shlex_split spawn (CStr template) verbose
    (Some replacements) dryrun st =
  (inr (if nonempty template then Some "" else None), st).
Proof.
  intros Hblank. unfold execute. cbn zeta.
  cbn [default from_option id truthy].
  destruct (nonempty template); [|done]. cbn [negb commands_of].
  by rewrite (filter_blank_lines _ Hblank).
Qed.


End ExecuteMore.

Lemma execute_verbose_witness :
  Execute.emitted
    (Examples.run
       (Execute.CVectors [["echo"; "a"]; ["false"]; ["echo"; "done"]])
       true false ∅).2 = []
  ∧ Examples.run
      (Execute.CVectors [["echo"; "a"]; ["false"]; ["echo"; "done"]])
      true false ∅ =
    (inl (Execute.CalledProcessError 1 ["false"] ""),
     Execute.State () [["echo"; "a"]; ["false"]] []).
Proof.
  destruct (execute_verbose Execute.ascii_whitespace false
              Examples.simple_format Examples.simple_split
              Examples.simple_spawn
              (Execute.CVectors [["echo"; "a"]; ["false"]; ["echo"; "done"]])
              ∅ Examples.start
              [["echo"; "a"]; ["false"]; ["echo"; "done"]])
    as [He _]; [vm_compute; reflexivity..|].
  split; [exact He|]. vm_compute. reflexivity.
Defined.

Lemma execute_bad_line_witness :
  ∃ e, Execute.execute Execute.ascii_whitespace false Examples.simple_format
         Examples.simple_split Examples.simple_spawn
         (Execute.CStr "echo {missing}") false (Some ∅) false
         Examples.start = (inl e, Examples.start).
Proof.
  apply (execute_bad_line Execute.ascii_whitespace false
           Examples.simple_format Examples.simple_split
           Examples.simple_spawn "echo {missing}" "echo {missing}").
  - vm_compute. apply list_elem_of_here.
  - vm_compute. reflexivity.
  - left. vm_compute. reflexivity.
Defined.

Lemma execute_blank_template_witness :
  Execute.execute Execute.ascii_whitespace false Examples.simple_format
    Examples.simple_split Examples.simple_spawn (Execute.CStr "   ") false
    (Some ∅) false Examples.start =
  (inr (if Execute.nonempty "   " then Some "" else None), Examples.start).
Proof.
  apply (execute_blank_template Execute.ascii_whitespace false
           Examples.simple_format Examples.simple_split
           Examples.simple_spawn "   ").
  vm_compute. by repeat constructor.
Defined.

Lemma execute_dryrun_witness :
  Examples.run (Execute.CVectors [["false"]; ["echo"; "{v}"]]) true true
    {[ "v" := "1.0" ]} =
  (inr (Some ""),
   Execute.State () []
     ([] ++ map (λ cmd, Execute.LogDryrun
                          ("execute: " +:+ Execute.join_spaces cmd))
              [["false"]; ["echo"; "1.0"]])).
Proof.
  apply (execute_dryrun Execute.ascii_whitespace false
           Examples.simple_format Examples.simple_split
           Examples.simple_spawn
           (Execute.CVectors [["false"]; ["echo"; "{v}"]]) true
           {[ "v" := "1.0" ]} Examples.start);
    vm_compute; reflexivity.
Defined.


(** * How calls compose *)

(** X16.  Two calls of [update] in a row are one call with the union of the
    arguments, where the later argument wins. *)
Theorem update_twice (t a b : gmap string value) :
  update (update t a) b = update t (b ∪ a).
Proof.
  apply map_eq. intros k. rewrite !update_lookup, lookup_union.
  by destruct (b !! k), (a !! k).
Qed.

Lemma split_lines_not_nil (s : string) : Execute.split_lines s ≠ [].
Proof.
  induction s as [|c s IH]; cbn [Execute.split_lines]; [done|].
  destruct (Ascii.eqb c "010"); [done|]. by destruct (Execute.split_lines s).
Qed.

(** X17.  The lines a template is cut into, joined by newlines again, are
    the template: no text is lost, and no line holds a newline. *)
Theorem split_lines_join (s : string) :
  String.concat (String "010" EmptyString) (Execute.split_lines s) = s
  ∧ Forall (λ line, "010"%char ∉ String.list_ascii_of_string line)
      (Execute.split_lines s).
Proof.
  induction s as [|c s [IHjoin IHline]]; cbn [Execute.split_lines].
  { split; [done|]. repeat constructor. cbn. apply not_elem_of_nil. }
  pose proof (split_lines_not_nil s) as Hne.
  destruct (Ascii.eqb_spec c "010") as [->|Hc].
  - split.
    + destruct (Execute.split_lines s) as [|line lines]; [done|].
      rewrite <- IHjoin. reflexivity.
    + constructor; [cbn; apply not_elem_of_nil|done].
  - destruct (Execute.split_lines s) as [|line lines]; [done|].
    apply Forall_cons in IHline as [Hline Hlines]. split.
    + rewrite <- IHjoin. by destruct lines.
    + constructor; [|done]. cbn [String.list_ascii_of_string].
      rewrite not_elem_of_cons. split; [congruence|done].
Qed.

Section ExecuteCompose.

Import Execute.

Context {W : Type}.
Variable is_space : ascii → bool.
Variable py3 : bool.
Variable format : string → gmap string string → option string.
Variable shlex_split : string → option (list string).
Variable spawn : list string → W → option (Z * string) * W.

Lemma string_append_assoc (a b c : string) :
  (a +:+ b) +:+ c = a +:+ (b +:+ c).
Proof.
  induction a as [|x a IH]; [done|].
  change (String x ((a +:+ b) +:+ c) = String x (a +:+ (b +:+ c))).
  by rewrite IH.
Qed.

Lemma comprehension_app {A B} (f : A → exn + B) (l1 l2 : list A) :
  comprehension f (l1 ++ l2) =
  match comprehension f l1 with
  | inl e => inl e
  | inr ys1 =>
      match comprehension f l2 with
      | inl e => inl e
      | inr ys2 => inr (ys1 ++ ys2)
      end
  end.
Proof.
  induction l1 as [|x l1 IH]; cbn [app comprehension].
  - by destruct (comprehension f l2).
  - destruct (f x) as [e|y]; [done|]. rewrite IH.
    destruct (comprehension f l1) as [e|ys1]; [done|].
    by destruct (comprehension f l2).
Qed.

(** The loop over a list is the loop over its first part, then over the
    rest from the state and the output reached. *)
Lemma run_commands_app (verbose dryrun : bool) (x y : list (list string))
    (output : string) (st : state) :
  run_commands py3 spawn verbose dryrun (x ++ y) output st =
  match run_commands py3 spawn verbose dryrun x output st with
  | (inr o, st') => run_commands py3 spawn verbose dryrun y o st'
  | (inl e, st') => (inl e, st')
  end.
Proof.
  revert output st. induction x as [|cmd x IH]; intros output st; [done|].
  cbn [app]. destruct dryrun; [|destruct verbose].
  - by rewrite !run_commands_dryrun_step, IH.
  - rewrite !run_commands_verbose_step.
    destruct (spawn cmd (world st)) as [[[code out]|] w]; [|done].
    case_bool_decide; [apply IH|done].
  - rewrite !run_commands_quiet_step.
    destruct (spawn cmd (world st)) as [[[code out]|] w]; [|done].
    case_bool_decide; [destruct py3; [done|]|]; apply IH.
Qed.

(** The output gathered before the loop is a prefix of its result. *)
Lemma run_commands_output (verbose dryrun : bool) (y : list (list string))
    (output : string) (st : state) :
  run_commands py3 spawn verbose dryrun y output st =
  match run_commands py3 spawn verbose dryrun y "" st with
  | (inr o, st') => (inr (output +:+ o), st')
  | (inl e, st') => (inl e, st')
  end.
Proof.
  revert output st. induction y as [|cmd y IH]; intros output st.
  { cbn. by rewrite append_empty_r. }
  destruct dryrun; [|destruct verbose].
  - rewrite !run_commands_dryrun_step. apply IH.
  - rewrite !run_commands_verbose_step.
    destruct (spawn cmd (world st)) as [[[code out]|] w]; [|done].
    case_bool_decide; [apply IH|done].
  - rewrite !run_commands_quiet_step.
    destruct (spawn cmd (world st)) as [[[code out]|] w]; [|done].
    case_bool_decide; [|apply IH]. destruct py3; [done|].
    rewrite (IH (output +:+ out)), (IH ("" +:+ out)).
    destruct (run_commands false spawn false false y "" _)
      as [[e|o] st']; [done|].
    by rewrite string_append_assoc.
Qed.

(** X18.  One call on a list of vectors is two calls in a row on its two
    parts, the second from the state the first leaves: the same commands are
    spawned, the same messages logged, and the outputs are concatenated; if
    the first call raises, so does the whole.  The parts of the second list
    must format, as the whole is formatted before anything runs. *)
Theorem execute_vectors_app (a b : list (list string))
    (replacements : gmap string string) (verbose dryrun : bool)
    (st : state) (cb : list (list string)) :
  a ≠ [] → b ≠ [] →
  commands_of is_space format shlex_split (CVectors b) replacements = inr cb →
  execute is_space py3 format shlex_split spawn (CVectors (a ++ b)) verbose
    (Some replacements) dryrun st =
  match execute is_space py3 format shlex_split spawn (CVectors a) verbose
          (Some replacements) dryrun st with
  | (inr (Some out1), st1) =>
      match execute is_space py3 format shlex_split spawn (CVectors b) verbose
              (Some replacements) dryrun st1 with
      | (inr (Some out2), st2) => (inr (Some (out1 +:+ out2)), st2)
      | r => r
      end
  | r => r
  end.
Proof.
  intros Ha Hb Hcb. unfold execute. cbn zeta.
  cbn [default from_option id truthy].
  rewrite !bool_decide_eq_false_2 by (by destruct a). cbn [negb].
  cbn [commands_of] in *. rewrite comprehension_app, Hcb.
  destruct (comprehension _ a) as [e|ca]; [done|].
  unfold bind, ret. rewrite run_commands_app.
  destruct (run_commands py3 spawn verbose dryrun ca "" st) as [[e|o1] st1];
    [done|].
  rewrite run_commands_output.
  by destruct (run_commands py3 spawn verbose dryrun cb "" st1) as [[e|o2] st2].
Qed.

End ExecuteCompose.

Lemma execute_vectors_app_witness :
  Examples.run (Execute.CVectors ([["echo"; "a"]] ++ [["echo"; "{v}"]]))
    false false {[ "v" := "1.0" ]} =
  (inr (Some ("a/" +:+ "1.0/")),
   Execute.State () [["echo"; "a"]; ["echo"; "1.0"]] [])
  ∧ Examples.run3 (Execute.CVectors ([["echo"; "a"]] ++ [["echo"; "{v}"]]))
      false false {[ "v" := "1.0" ]} =
    Examples.run3 (Execute.CVectors [["echo"; "a"]]) false false
      {[ "v" := "1.0" ]}.
Proof.
  unfold Examples.run, Examples.run3. split.
  - rewrite (execute_vectors_app Execute.ascii_whitespace false
               Examples.simple_format Examples.simple_split
               Examples.simple_spawn [["echo"; "a"]] [["echo"; "{v}"]]
               {[ "v" := "1.0" ]} false false Examples.start
               [["echo"; "1.0"]]); [|done|done|vm_compute; reflexivity].
    vm_compute. reflexivity.
  - rewrite (execute_vectors_app Execute.unicode_whitespace true
               Examples.simple_format Examples.simple_split
               Examples.simple_spawn [["echo"; "a"]] [["echo"; "{v}"]]
               {[ "v" := "1.0" ]} false false Examples.start
               [["echo"; "1.0"]]); [|done|done|vm_compute; reflexivity].
    vm_compute. reflexivity.
Defined.
